(** * create_icon.py: the RayLink app-icon generator

    A shallow embedding of [create_icon.py] and the properties of its
    drawing loops, its metadata document and its fallback branch.

    Python numbers are modelled as the interpreter has them: [int] as [Z],
    [float] as IEEE-754 binary64 through the Standard Library's
    executable specification [SpecFloat] (round to nearest, ties to even),
    so that every [int(...)] truncation below is computed bit for bit. *)

From Stdlib Require Import ZArith List Bool Lia String Ascii DecimalString.
From Stdlib Require Import QArith Qround Sorted.
From Stdlib Require Import Strings.Byte.
From Stdlib Require Import Floats.SpecFloat.
Import ListNotations.

Local Open Scope string_scope.
Local Open Scope Z_scope.

(** ** Python exceptions and results *)

Inductive exn : Type :=
| ImportError
| ModuleNotFoundError
| OSError
| ValueError
| OverflowError
| BinasciiError.

(** [except ImportError] catches the class and its subclasses. *)
Definition isinstance_ImportError (e : exn) : bool :=
  match e with
  | ImportError | ModuleNotFoundError => true
  | _ => false
  end.

Inductive result (A : Type) : Type :=
| Ok (a : A)
| Raise (e : exn).
Arguments Ok {A} a.
Arguments Raise {A} e.

(** ** Python floats *)

Module PyFloat.

Definition prec : Z := 53.
Definition emax : Z := 1024.

Definition float := spec_float.

(** [float(n)] for an [int]; exact below [2^53]. *)
Definition of_int (n : Z) : float := binary_normalize prec emax n 0 false.

Definition add : float -> float -> float := SFadd prec emax.
Definition sub : float -> float -> float := SFsub prec emax.
Definition mul : float -> float -> float := SFmul prec emax.
Definition div : float -> float -> float := SFdiv prec emax.

(** [a / b] on two ints: the correctly rounded quotient.  The divisors of
    the script are the nonzero constants 1024, 256 and 10. *)
Definition truediv (a b : Z) : float := div (of_int a) (of_int b).

(** The literals [0.3] and [0.5]: the doubles nearest to 3/10 and 1/2. *)
Definition lit_0_3 : float := S754_finite false 5404319552844595 (-54).
Definition lit_0_5 : float := S754_finite false 4503599627370496 (-53).

(** [int(x)]: truncation toward zero; Python raises on infinities and
    NaN. *)
Definition int (x : float) : result Z :=
  match x with
  | S754_zero _ => Ok 0
  | S754_finite s m e =>
      let a := match e with
               | Zneg p => Z.shiftr (Zpos m) (Zpos p)
               | _ => Z.shiftl (Zpos m) e
               end in
      Ok (if s then - a else a)
  | S754_infinity _ => Raise OverflowError
  | S754_nan => Raise ValueError
  end.

(** The rational value of a finite float. *)
Definition to_Q (x : float) : option Q :=
  match x with
  | S754_zero _ => Some 0%Q
  | S754_finite s m e =>
      let a := match e with
               | Zneg p => Qmake (Zpos m) (2 ^ p)%positive
               | _ => inject_Z (Z.shiftl (Zpos m) e)
               end in
      Some (if s then Qopp a else a)
  | _ => None
  end.

Definition Qeq_opt (x : option Q) (q : Q) : bool :=
  match x with
  | Some p => Qeq_bool p q
  | None => false
  end.

End PyFloat.

(** ** [range(start, stop, step)] *)

Fixpoint range_from (n : nat) (start step : Z) : list Z :=
  match n with
  | O => []
  | S n' => start :: range_from n' (start + step) step
  end.

(** The number of elements is [ceil((stop - start) / step)] when positive;
    [step = 0] raises [ValueError] in Python and is not used here. *)
Definition py_range (start stop step : Z) : list Z :=
  if 0 <? step then range_from (Z.to_nat ((stop - start + step - 1) / step)) start step
  else if step <? 0 then range_from (Z.to_nat ((start - stop - step - 1) / (- step))) start step
  else [].

(** ** The constants of [create_app_icon] *)

Definition size : Z := 1024.

Definition rgba : Type := (Z * Z * Z * Z)%type.

(** ** Step 2: the gradient rows (lines 16-22) *)

Definition progress (y : Z) : PyFloat.float := PyFloat.truediv y size.

Definition lerp_channel (top bottom : Z) (p : PyFloat.float) : result Z :=
  PyFloat.int
    (PyFloat.add
       (PyFloat.mul (PyFloat.of_int top) (PyFloat.sub (PyFloat.of_int 1) p))
       (PyFloat.mul (PyFloat.of_int bottom) p)).

Definition gradient_color (y : Z) : result rgba :=
  let progress := progress y in
  match lerp_channel 100 40 progress with
  | Raise e => Raise e
  | Ok r =>
      match lerp_channel 50 100 progress with
      | Raise e => Raise e
      | Ok g =>
          match lerp_channel 255 255 progress with
          | Raise e => Raise e
          | Ok b => Ok (r, g, b, 255)
          end
      end
  end.

(** ** Step 3: the radial overlay alpha (line 26) *)

Definition overlay_alpha (i : Z) : result Z :=
  PyFloat.int
    (PyFloat.mul
       (PyFloat.mul (PyFloat.of_int 255)
          (PyFloat.sub (PyFloat.of_int 1) (PyFloat.truediv i (size / 4))))
       PyFloat.lit_0_3).

(** ** Step 6: the glow alpha (line 56) *)

Definition glow_alpha (offset : Z) : result Z :=
  PyFloat.int
    (PyFloat.mul
       (PyFloat.mul (PyFloat.of_int 255)
          (PyFloat.sub (PyFloat.of_int 1) (PyFloat.truediv offset 10)))
       PyFloat.lit_0_5).

(** ** The canvas and the output of a run *)

Inductive font : Type :=
| TrueType (path : string) (font_size : Z)
| DefaultFont.

(** The drawing calls the script makes on [draw]; [Ellipse] is always called
    with [fill=None]. *)
Inductive draw_cmd : Type :=
| Rectangle (x0 y0 x1 y1 : Z) (fill : rgba)
| Ellipse (x0 y0 x1 y1 : Z) (outline : rgba) (width : Z)
| Text (x y : Z) (text : string) (f : font) (fill : rgba).

(** What a file receives: raw bytes, text, or the PNG encoding of a canvas
    given by the drawing calls it received (the encoder itself is the
    imaging library's). *)
Inductive content : Type :=
| Bytes (b : list byte)
| TextDoc (s : string)
| PNGOf (canvas : list draw_cmd).

Inductive event : Type :=
| Print (s : string)
| WriteFile (path : string) (c : content).

(** ** JSON documents: [json.dump(obj, f, indent=2)] and [json.load]

    A [dict] keeps its insertion order, so an object is an association
    list.  The strings of the script are ASCII. *)

Module Json.

#[local] Set Warnings "-register-all".

Inductive value : Type :=
| JNull
| JBool (b : bool)
| JInt (n : Z)
| JString (s : string)
| JArray (items : list value)
| JObject (members : list (string * value)).

Definition dquote : ascii := ascii_of_nat 34.
Definition backslash : ascii := ascii_of_nat 92.
Definition newline : ascii := ascii_of_nat 10.

Definition str (c : ascii) : string := String c EmptyString.

Definition hex_digit (n : N) : ascii :=
  ascii_of_N (if (n <? 10)%N then 48 + n else 87 + n)%N.

(** The encoder's [ensure_ascii] escaping of one character. *)
Definition escape_char (c : ascii) : string :=
  let n := N_of_ascii c in
  if Ascii.eqb c dquote then String backslash (str dquote)
  else if Ascii.eqb c backslash then String backslash (str backslash)
  else if (n =? 8)%N then String backslash "b"
  else if (n =? 12)%N then String backslash "f"
  else if (n =? 10)%N then String backslash "n"
  else if (n =? 13)%N then String backslash "r"
  else if (n =? 9)%N then String backslash "t"
  else if ((32 <=? n) && (n <=? 126))%N then str c
  else String backslash
         ("u00" ++ String (hex_digit (n / 16)) (str (hex_digit (n mod 16)))).

Fixpoint escape (s : string) : string :=
  match s with
  | EmptyString => EmptyString
  | String c s' => escape_char c ++ escape s'
  end.

Definition encode_string (s : string) : string :=
  String dquote (escape s ++ str dquote).

Fixpoint spaces (n : nat) : string :=
  match n with
  | O => EmptyString
  | S n' => String " " (spaces n')
  end.

(** ['\n' + indent * level] *)
Definition newline_indent (indent level : nat) : string :=
  String newline (spaces (indent * level)).

(** [json.dumps(v, indent=indent)] at nesting depth [level]: the item
    separator is [','] followed by the new line and indentation, the key
    separator is [': ']. *)
Fixpoint encode (indent : nat) (level : nat) (v : value) : string :=
  match v with
  | JNull => "null"
  | JBool true => "true"
  | JBool false => "false"
  | JInt n => NilZero.string_of_int (Z.to_int n)
  | JString s => encode_string s
  | JArray [] => "[]"
  | JArray items =>
      "[" ++ newline_indent indent (S level)
      ++ String.concat ("," ++ newline_indent indent (S level))
           (map (encode indent (S level)) items)
      ++ newline_indent indent level ++ "]"
  | JObject [] => "{}"
  | JObject members =>
      "{" ++ newline_indent indent (S level)
      ++ String.concat ("," ++ newline_indent indent (S level))
           (map (fun kv => encode_string (fst kv) ++ ": "
                           ++ encode indent (S level) (snd kv)) members)
      ++ newline_indent indent level ++ "}"
  end.

Definition dumps (v : value) (indent : nat) : string := encode indent 0 v.

(** *** The decoder *)

Definition is_ws (c : ascii) : bool :=
  let n := N_of_ascii c in
  ((n =? 32) || (n =? 10) || (n =? 13) || (n =? 9))%N.

Fixpoint skip_ws (s : list ascii) : list ascii :=
  match s with
  | c :: s' => if is_ws c then skip_ws s' else s
  | [] => []
  end.

Definition is_digit (c : ascii) : bool :=
  let n := N_of_ascii c in ((48 <=? n) && (n <=? 57))%N.

Fixpoint parse_digits (s : list ascii) (acc : Z) : Z * list ascii :=
  match s with
  | c :: s' =>
      if is_digit c
      then parse_digits s' (10 * acc + Z.of_N (N_of_ascii c) - 48)
      else (acc, s)
  | [] => (acc, [])
  end.

(** Integers only: a fraction or an exponent is not decoded. *)
Definition parse_int (s : list ascii) : option (Z * list ascii) :=
  let '(neg, s1) := match s with
                    | "-"%char :: r => (true, r)
                    | _ => (false, s)
                    end in
  match s1 with
  | c :: r =>
      if is_digit c then
        let '(n, rest) := if Ascii.eqb c "0" then (0, r) else parse_digits s1 0 in
        match rest with
        | "."%char :: _ | "e"%char :: _ | "E"%char :: _ => None
        | _ => Some (if neg then - n else n, rest)
        end
      else None
  | [] => None
  end.

(** The characters of a string after its opening quote; [\u] escapes are
    not decoded. *)
Fixpoint parse_chars (s : list ascii) : option (string * list ascii) :=
  match s with
  | [] => None
  | c :: r =>
      if Ascii.eqb c dquote then Some (EmptyString, r)
      else if Ascii.eqb c backslash then
        match r with
        | e :: r' =>
            let plain (d : ascii) :=
              match parse_chars r' with
              | Some (t, rest) => Some (String d t, rest)
              | None => None
              end in
            if Ascii.eqb e dquote then plain dquote
            else if Ascii.eqb e backslash then plain backslash
            else if Ascii.eqb e "/" then plain "/"%char
            else if Ascii.eqb e "b" then plain (ascii_of_nat 8)
            else if Ascii.eqb e "f" then plain (ascii_of_nat 12)
            else if Ascii.eqb e "n" then plain (ascii_of_nat 10)
            else if Ascii.eqb e "r" then plain (ascii_of_nat 13)
            else if Ascii.eqb e "t" then plain (ascii_of_nat 9)
            else None
        | [] => None
        end
      else if (N_of_ascii c <? 32)%N then None
      else
        match parse_chars r with
        | Some (t, rest) => Some (String c t, rest)
        | None => None
        end
  end.

Fixpoint parse_value (fuel : nat) (s : list ascii) {struct fuel}
  : option (value * list ascii) :=
  match fuel with
  | O => None
  | S fuel' =>
      match skip_ws s with
      | [] => None
      | c :: r =>
          if Ascii.eqb c "{" then
            match skip_ws r with
            | "}"%char :: r' => Some (JObject [], r')
            | r' =>
                match parse_members fuel' r' with
                | Some (ms, rest) => Some (JObject ms, rest)
                | None => None
                end
            end
          else if Ascii.eqb c "[" then
            match skip_ws r with
            | "]"%char :: r' => Some (JArray [], r')
            | r' =>
                match parse_items fuel' r' with
                | Some (vs, rest) => Some (JArray vs, rest)
                | None => None
                end
            end
          else if Ascii.eqb c dquote then
            match parse_chars r with
            | Some (t, rest) => Some (JString t, rest)
            | None => None
            end
          else
            match c :: r with
            | "t"%char :: "r"%char :: "u"%char :: "e"%char :: rest =>
                Some (JBool true, rest)
            | "f"%char :: "a"%char :: "l"%char :: "s"%char :: "e"%char :: rest =>
                Some (JBool false, rest)
            | "n"%char :: "u"%char :: "l"%char :: "l"%char :: rest =>
                Some (JNull, rest)
            | other =>
                match parse_int other with
                | Some (n, rest) => Some (JInt n, rest)
                | None => None
                end
            end
      end
  end

with parse_items (fuel : nat) (s : list ascii) {struct fuel}
  : option (list value * list ascii) :=
  match fuel with
  | O => None
  | S fuel' =>
      match parse_value fuel' s with
      | Some (v, r) =>
          match skip_ws r with
          | ","%char :: r' =>
              match parse_items fuel' r' with
              | Some (vs, rest) => Some (v :: vs, rest)
              | None => None
              end
          | "]"%char :: r' => Some ([v], r')
          | _ => None
          end
      | None => None
      end
  end

with parse_members (fuel : nat) (s : list ascii) {struct fuel}
  : option (list (string * value) * list ascii) :=
  match fuel with
  | O => None
  | S fuel' =>
      match skip_ws s with
      | c :: r =>
          if Ascii.eqb c dquote then
            match parse_chars r with
            | Some (k, r1) =>
                match skip_ws r1 with
                | ":"%char :: r2 =>
                    match parse_value fuel' r2 with
                    | Some (v, r3) =>
                        match skip_ws r3 with
                        | ","%char :: r4 =>
                            match parse_members fuel' r4 with
                            | Some (ms, rest) => Some ((k, v) :: ms, rest)
                            | None => None
                            end
                        | "}"%char :: r4 => Some ([(k, v)], r4)
                        | _ => None
                        end
                    | None => None
                    end
                | _ => None
                end
            | None => None
            end
          else None
      | [] => None
      end
  end.

(** [json.loads(s)]: one value, then only white space. *)
Definition loads (s : string) : option value :=
  let cs := list_ascii_of_string s in
  match parse_value (S (List.length cs)) cs with
  | Some (v, rest) =>
      match skip_ws rest with
      | [] => Some v
      | _ => None
      end
  | None => None
  end.

(** Lookup in a decoded object and the extraction of fields. *)
Fixpoint get (k : string) (ms : list (string * value)) : option value :=
  match ms with
  | [] => None
  | (k', v) :: ms' => if String.eqb k k' then Some v else get k ms'
  end.

Definition field (k : string) (v : value) : option value :=
  match v with
  | JObject ms => get k ms
  | _ => None
  end.

(** A JSON text written with ['] for the double quote. *)
Definition quoted (s : string) : string :=
  string_of_list_ascii
    (map (fun c => if Ascii.eqb c "'" then dquote else c)
       (list_ascii_of_string s)).

End Json.

(** ** [base64.b64decode] *)

Module Base64.

(** The value of a character of the standard alphabet. *)
Definition sextet (c : ascii) : option N :=
  let n := N_of_ascii c in
  if ((65 <=? n) && (n <=? 90))%N then Some (n - 65)%N
  else if ((97 <=? n) && (n <=? 122))%N then Some (n - 71)%N
  else if ((48 <=? n) && (n <=? 57))%N then Some (n + 4)%N
  else if (n =? 43)%N then Some 62%N
  else if (n =? 47)%N then Some 63%N
  else None.

Definition byte_of_N (n : N) : byte :=
  match Byte.of_N (n mod 256) with
  | Some b => b
  | None => x00
  end.

(** The decoding loop of [binascii.a2b_base64] (not strict): characters
    outside the alphabet are skipped; a pad that completes a quad ends the
    input; [quad_pos] counts the characters of the current quad,
    [leftchar] holds its pending bits and [pads] the pads seen since the
    last character.  [None] is [binascii.Error]. *)
Fixpoint decode_loop (s : list ascii) (quad_pos leftchar pads : N)
    (out : list byte) : option (list byte) :=
  match s with
  | [] => if (quad_pos =? 0)%N then Some (rev out) else None
  | c :: s' =>
      if Ascii.eqb c "=" then
        if ((2 <=? quad_pos) && (4 <=? quad_pos + (pads + 1)))%N
        then Some (rev out)
        else decode_loop s' quad_pos leftchar
               (if (2 <=? quad_pos)%N then pads + 1 else pads)%N out
      else
        match sextet c with
        | None => decode_loop s' quad_pos leftchar pads out
        | Some this_ch =>
            if (quad_pos =? 0)%N then
              decode_loop s' 1%N this_ch 0%N out
            else if (quad_pos =? 1)%N then
              decode_loop s' 2%N (N.land this_ch 15) 0%N
                (byte_of_N (N.lor (N.shiftl leftchar 2) (N.shiftr this_ch 4)) :: out)
            else if (quad_pos =? 2)%N then
              decode_loop s' 3%N (N.land this_ch 3) 0%N
                (byte_of_N (N.lor (N.shiftl leftchar 4) (N.shiftr this_ch 2)) :: out)
            else
              decode_loop s' 0%N 0%N 0%N
                (byte_of_N (N.lor (N.shiftl leftchar 6) this_ch) :: out)
        end
  end.

Definition b64decode (s : string) : option (list byte) :=
  decode_loop (list_ascii_of_string s) 0 0 0 [].

End Base64.

(** ** The world outside the script

    Whether the imaging library can be imported, what its calls do, and
    whether the built-in output calls fail.  A call into the imaging
    library may raise any exception; [print] and [open] raise [OSError]
    only, never an [ImportError]. *)

Record World : Type := {
  pil_importable : bool;
  image_new_raises : option exn;
  draw_raises : draw_cmd -> option exn;
  truetype_raises : option exn;
  load_default_raises : option exn;
  textbbox : font -> result (Z * Z * Z * Z);
  save_raises : option exn;
  print_fails : string -> bool;
  open_fails : string -> bool
}.

(** ** State and exceptions: the monad of the script *)

Record state : Type := {
  canvas : list draw_cmd;
  output : list event
}.

Definition initial_state : state := {| canvas := []; output := [] |}.

Definition M (A : Type) : Type := state -> result A * state.

Definition ret {A} (a : A) : M A := fun st => (Ok a, st).

Definition bind {A B} (c : M A) (k : A -> M B) : M B :=
  fun st =>
    match c st with
    | (Ok a, st') => k a st'
    | (Raise e, st') => (Raise e, st')
    end.

Definition raise {A} (e : exn) : M A := fun st => (Raise e, st).

Notation "x <- c ;; k" := (bind c (fun x => k))
  (at level 61, c at next level, right associativity).
Notation "c ;; k" := (bind c (fun _ => k))
  (at level 61, right associativity).

Definition lift {A} (r : result A) : M A :=
  match r with
  | Ok a => ret a
  | Raise e => raise e
  end.

Definition may_raise (o : option exn) : M unit :=
  match o with
  | Some e => raise e
  | None => ret tt
  end.

(** [try: body  except: handler] (a bare [except] catches everything). *)
Definition try_except {A} (body handler : M A) : M A :=
  fun st =>
    match body st with
    | (Ok a, st') => (Ok a, st')
    | (Raise _, st') => handler st'
    end.

(** [try: body  except ImportError: handler]. *)
Definition try_except_ImportError {A} (body handler : M A) : M A :=
  fun st =>
    match body st with
    | (Ok a, st') => (Ok a, st')
    | (Raise e, st') =>
        if isinstance_ImportError e then handler st' else (Raise e, st')
    end.

(** [for x in xs: body]. *)
Fixpoint for_ {A} (xs : list A) (body : A -> M unit) : M unit :=
  match xs with
  | [] => ret tt
  | x :: xs' => body x ;; for_ xs' body
  end.

Section Script.

Variable w : World.

(** *** Primitive effects *)

Definition draw (c : draw_cmd) : M unit :=
  fun st =>
    match draw_raises w c with
    | Some e => (Raise e, st)
    | None => (Ok tt, {| canvas := canvas st ++ [c]; output := output st |})
    end.

Definition emit (ev : event) : M unit :=
  fun st => (Ok tt, {| canvas := canvas st; output := output st ++ [ev] |}).

Definition print (s : string) : M unit :=
  if print_fails w s then raise OSError else emit (Print s).

(** [with open(path, mode) as f: f.write(c)] *)
Definition write_file (path : string) (c : content) : M unit :=
  if open_fails w path then raise OSError else emit (WriteFile path c).

(** [img.save(path, "PNG")] *)
Definition save (path : string) : M unit :=
  may_raise (save_raises w) ;;
  fun st => emit (WriteFile path (PNGOf (canvas st))) st.

(** [from PIL import Image, ImageDraw, ImageFont] *)
Definition import_PIL : M unit :=
  if pil_importable w then ret tt else raise ModuleNotFoundError.

End Script.

(** ** The script *)

Definition icon_path : string :=
  "/Users/alisimacpro/Desktop/RayLink/RayLink/Assets.xcassets/AppIcon.appiconset/AppIcon.png".

Definition contents_path : string :=
  "/Users/alisimacpro/Desktop/RayLink/RayLink/Assets.xcassets/AppIcon.appiconset/Contents.json".

Definition text : string := "R".

Definition white (alpha : Z) : rgba := (255, 255, 255, alpha).

(** Lines 47-52: the placement of the glyph from its bounding box; [//] is
    floor division, as [Z.div] is for a positive divisor. *)
Definition text_position (bbox : Z * Z * Z * Z) : Z * Z :=
  let '(b0, b1, b2, b3) := bbox in
  let text_width := b2 - b0 in
  let text_height := b3 - b1 in
  let x := (size - text_width) / 2 in
  let y := (size - text_height) / 2 - text_height / 10 in
  (x, y).

(** Lines 69-82. *)
Definition contents : Json.value :=
  Json.JObject
    [ ("images",
       Json.JArray
         [ Json.JObject
             [ ("filename", Json.JString "AppIcon.png");
               ("idiom", Json.JString "universal");
               ("platform", Json.JString "ios");
               ("size", Json.JString "1024x1024") ] ]);
      ("info",
       Json.JObject
         [ ("author", Json.JString "xcode");
           ("version", Json.JInt 1) ]) ].

(** Lines 98-100. *)
Definition png_data : option (list byte) :=
  Base64.b64decode
    "iVBORw0KGgoAAAANSUhEUgAAAAEAAAABCAYAAAAfFcSJAAAADUlEQVR42mNkYPhfDwAChwGA60e6kgAAAABJRU5ErkJggg==".

Section Program.

Variable w : World.

(** Lines 12-13: a fresh transparent canvas. *)
Definition new_image : M unit :=
  may_raise (image_new_raises w) ;;
  fun st => (Ok tt, {| canvas := []; output := output st |}).

(** Lines 17-22: the body of the gradient loop. *)
Definition gradient_row (y : Z) : M unit :=
  c <- lift (gradient_color y) ;;
  draw w (Rectangle 0 y size (y + 1) c).

(** Lines 26-33: the body of the overlay loop. *)
Definition overlay_ring (i : Z) : M unit :=
  alpha <- lift (overlay_alpha i) ;;
  let color := white alpha in
  draw w (Ellipse (size / 2 - i) (size / 2 - i) (size / 2 + i) (size / 2 + i)
            color 2).

(** Lines 36-42. *)
Definition load_font : M font :=
  try_except
    (let font_size := size / 2 in
     may_raise (truetype_raises w) ;;
     ret (TrueType "/System/Library/Fonts/Helvetica.ttc" font_size))
    (may_raise (load_default_raises w) ;;
     ret DefaultFont).

(** Lines 56-57: the body of the glow loop. *)
Definition glow_pass (x y : Z) (f : font) (offset : Z) : M unit :=
  alpha <- lift (glow_alpha offset) ;;
  draw w (Text x y text f (white alpha)).

(** Lines 55-60: the glow loop and the main text. *)
Definition draw_glyph (x y : Z) (f : font) : M unit :=
  for_ (py_range 10 0 (-1)) (glow_pass x y f) ;;
  draw w (Text x y text f (white 255)).

Definition create_app_icon : M unit :=
  new_image ;;
  for_ (py_range 0 size 1) gradient_row ;;
  for_ (py_range (size / 4) 0 (-1)) overlay_ring ;;
  f <- load_font ;;
  bbox <- lift (textbbox w f) ;;
  let '(x, y) := text_position bbox in
  draw_glyph x y f ;;
  save w icon_path ;;
  print w ("✅ Created app icon: " ++ icon_path) ;;
  write_file w contents_path (TextDoc (Json.dumps contents 2)) ;;
  print w "✅ Updated Contents.json".

(** Lines 93-105: the [except ImportError] branch. *)
Definition fallback : M unit :=
  print w "⚠️  PIL not installed. Using fallback method..." ;;
  data <- match png_data with
          | Some b => ret b
          | None => raise BinasciiError
          end ;;
  write_file w icon_path (Bytes data) ;;
  print w "✅ Created placeholder app icon".

(** The module run as a program: the imports of lines 3-5, of which only
    the imaging library can be missing, then the guarded block of lines
    88-105. *)
Definition main : M unit :=
  import_PIL w ;;
  try_except_ImportError
    (import_PIL w ;;
     create_app_icon)
    fallback.

End Program.

(** The two phases of [create_app_icon]: drawing on the canvas (lines 12-60)
    and writing the results out (lines 63-86). *)
Definition render (w : World) : M unit :=
  new_image w ;;
  for_ (py_range 0 size 1) (gradient_row w) ;;
  for_ (py_range (size / 4) 0 (-1)) (overlay_ring w) ;;
  f <- load_font w ;;
  bbox <- lift (textbbox w f) ;;
  let '(x, y) := text_position bbox in
  draw_glyph w x y f.

Definition publish (w : World) : M unit :=
  save w icon_path ;;
  print w ("✅ Created app icon: " ++ icon_path) ;;
  write_file w contents_path (TextDoc (Json.dumps contents 2)) ;;
  print w "✅ Updated Contents.json".

(** A run starts on an empty output; it ends normally or on an uncaught
    exception. *)
Definition run (w : World) : result unit * state := main w initial_state.

Definition events (w : World) : list event := output (snd (run w)).

Definition writes_to (path : string) (evs : list event) : list content :=
  flat_map (fun ev => match ev with
                      | WriteFile p c => if String.eqb p path then [c] else []
                      | Print _ => []
                      end) evs.

(** *** Reference worlds *)

(** Everything works; the glyph measures [bbox] in either font. *)
Definition working_world (bbox : Z * Z * Z * Z) : World :=
  {| pil_importable := true;
     image_new_raises := None;
     draw_raises := fun _ => None;
     truetype_raises := None;
     load_default_raises := None;
     textbbox := fun _ => Ok bbox;
     save_raises := None;
     print_fails := fun _ => false;
     open_fails := fun _ => false |}.

(** The imaging library is not installed. *)
Definition world_without_pil : World :=
  {| pil_importable := false;
     image_new_raises := Some ImportError;
     draw_raises := fun _ => Some ImportError;
     truetype_raises := Some ImportError;
     load_default_raises := Some ImportError;
     textbbox := fun _ => Raise ImportError;
     save_raises := Some ImportError;
     print_fails := fun _ => false;
     open_fails := fun _ => false |}.

(** The library imports, but a later call into it raises [ImportError]
    (a missing optional component met while saving). *)
Definition world_late_import_error : World :=
  {| pil_importable := true;
     image_new_raises := None;
     draw_raises := fun _ => None;
     truetype_raises := Some OSError;
     load_default_raises := None;
     textbbox := fun _ => Ok (0, 0, 6, 11);
     save_raises := Some ImportError;
     print_fails := fun _ => false;
     open_fails := fun _ => false |}.

(** The imaging library works, but the system font is missing: the default
    font is used. *)
Definition world_without_helvetica : World :=
  {| pil_importable := true;
     image_new_raises := None;
     draw_raises := fun _ => None;
     truetype_raises := Some OSError;
     load_default_raises := None;
     textbbox := fun _ => Ok (0, 0, 6, 11);
     save_raises := None;
     print_fails := fun _ => false;
     open_fails := fun _ => false |}.

(** The document of the specification's scenario for [Contents.json]. *)
Definition scenario_document : string :=
  Json.quoted
    "{'images':[{'filename':'AppIcon.png','idiom':'universal','platform':'ios','size':'1024x1024'}],'info':{'author':'xcode','version':1}}".

(** *** What a run did *)

Definition fallback_notice : string :=
  "⚠️  PIL not installed. Using fallback method...".

Definition file_writes (evs : list event) : list (string * content) :=
  flat_map (fun ev => match ev with
                      | WriteFile p c => [(p, c)]
                      | Print _ => []
                      end) evs.

(** The success path: the library imports and [create_app_icon] returns. *)
Definition on_success_path (w : World) : Prop :=
  pil_importable w = true /\
  exists st', create_app_icon w initial_state = (Ok tt, st').

(** The fallback path: the library imports at line 4, and the guarded call
    raises an [ImportError]. *)
Definition on_fallback_path (w : World) : Prop :=
  pil_importable w = true /\
  exists e st', create_app_icon w initial_state = (Raise e, st') /\
                isinstance_ImportError e = true.

(** ** The canvas as pixels

    The imaging library's [rectangle] fills its bounding box, both corners
    included, with the ink as it is (no blending); what falls outside the
    canvas is clipped, and only the pixels with [0 <= x, y < size] are ever
    read here.  Outlines and text are not modelled at the pixel level. *)

Module Canvas.

Definition pixels : Type := Z -> Z -> rgba.

(** [Image.new('RGBA', (size, size), (0, 0, 0, 0))] *)
Definition blank : pixels := fun _ _ => (0, 0, 0, 0).

Definition in_box (x0 y0 x1 y1 x y : Z) : bool :=
  (x0 <=? x) && (x <=? x1) && (y0 <=? y) && (y <=? y1).

Definition paint (c : draw_cmd) (px : pixels) : option pixels :=
  match c with
  | Rectangle x0 y0 x1 y1 fill =>
      Some (fun x y => if in_box x0 y0 x1 y1 x y then fill else px x y)
  | _ => None
  end.

Fixpoint paint_all (cs : list draw_cmd) (px : pixels) : option pixels :=
  match cs with
  | [] => Some px
  | c :: cs' =>
      match paint c px with
      | Some px' => paint_all cs' px'
      | None => None
      end
  end.

End Canvas.

(** ** The drawing steps as the specification words them

    Exact rational arithmetic and truncation toward zero, to be compared
    with the floating-point computations of the script. *)

Module Exact.

Local Open Scope Q_scope.

Definition trunc (q : Q) : Z :=
  if Qle_bool 0 q then Qfloor q else Qceiling q.

(** The interpolation fraction of row [y]. *)
Definition fraction (y : Z) : Q := inject_Z y / inject_Z size.

Definition blend (top bottom : Z) (f : Q) : Z :=
  trunc (inject_Z top * (1 - f) + inject_Z bottom * f).

Definition row_color (y : Z) : rgba :=
  let f := fraction y in
  (blend 100 40 f, blend 50 100 f, blend 255 255 f, 255%Z).

Definition overlay_alpha (i : Z) : Z :=
  trunc (255 * (1 - inject_Z i / inject_Z (size / 4)) * (3 # 10)).

Definition glow_alpha (offset : Z) : Z :=
  trunc (255 * (1 - inject_Z offset / 10) * (1 # 2)).

End Exact.

(** The drawing calls of each step. *)

Definition gradient_cmds : list draw_cmd :=
  map (fun y => Rectangle 0 y size (y + 1) (Exact.row_color y))
    (py_range 0 size 1).

Definition overlay_cmds : list draw_cmd :=
  map (fun i => Ellipse (size / 2 - i) (size / 2 - i) (size / 2 + i) (size / 2 + i)
                  (white (Exact.overlay_alpha i)) 2)
    (py_range (size / 4) 0 (-1)).

Definition glow_alphas : list Z := map Exact.glow_alpha (py_range 10 0 (-1)).

Definition glyph_cmds (x y : Z) (f : font) : list draw_cmd :=
  map (fun a => Text x y text f (white a)) glow_alphas
  ++ [Text x y text f (white 255)].

(** Decidable comparisons used to check a whole loop by computation. *)

Definition result_Z_is (r : result Z) (v : Z) : bool :=
  match r with
  | Ok a => a =? v
  | Raise _ => false
  end.

Definition rgba_eqb (a b : rgba) : bool :=
  let '(a0, a1, a2, a3) := a in
  let '(b0, b1, b2, b3) := b in
  (a0 =? b0) && (a1 =? b1) && (a2 =? b2) && (a3 =? b3).

Definition result_rgba_is (r : result rgba) (v : rgba) : bool :=
  match r with
  | Ok a => rgba_eqb a v
  | Raise _ => false
  end.


(** A glow pass has an alpha between 0 and 114. *)
Definition glow_in_bounds (offset : Z) : bool :=
  match glow_alpha offset with
  | Ok a => (0 <=? a) && (a <=? 114)
  | Raise _ => false
  end.

(** The fraction of row [y] as the script computes it has the rational value
    [q]. *)
Definition fraction_is (y : Z) (q : Q) : Prop :=
  exists p, PyFloat.to_Q (progress y) = Some p /\ (p == q)%Q.

(** The events of a complete [publish] and of a complete [fallback]. *)
Definition published (cv : list draw_cmd) : list event :=
  [ WriteFile icon_path (PNGOf cv);
    Print ("✅ Created app icon: " ++ icon_path);
    WriteFile contents_path (TextDoc (Json.dumps contents 2));
    Print "✅ Updated Contents.json" ].

Definition fallback_events (data : list byte) : list event :=
  [ Print fallback_notice;
    WriteFile icon_path (Bytes data);
    Print "✅ Created placeholder app icon" ].

(** The decoded constant of lines 98-100 (empty if the decoding failed,
    which [png_data_decoded] below excludes). *)
Definition fallback_bytes : list byte :=
  match png_data with
  | Some data => data
  | None => []
  end.

(** The font [load_font] ends up with. *)
Definition font_loaded (w : World) (f : font) : Prop :=
  (truetype_raises w = None /\
   f = TrueType "/System/Library/Fonts/Helvetica.ttc" (size / 2))
  \/ (truetype_raises w <> None /\ load_default_raises w = None /\
      f = DefaultFont).

(** The canvas [create_app_icon] has drawn when it reaches [img.save]. *)
Definition rendered (w : World) (cv : list draw_cmd) : Prop :=
  exists f bbox,
    font_loaded w f /\ textbbox w f = Ok bbox /\
    cv = (gradient_cmds ++ overlay_cmds
          ++ glyph_cmds (fst (text_position bbox)) (snd (text_position bbox)) f)%list.

(** *** Further reference worlds *)

(** Loading the system font raises an [ImportError] (the library was built
    without its font module); the default font loads. *)
Definition world_truetype_import_error : World :=
  {| pil_importable := true;
     image_new_raises := None;
     draw_raises := fun _ => None;
     truetype_raises := Some ImportError;
     load_default_raises := None;
     textbbox := fun _ => Ok (0, 0, 6, 11);
     save_raises := None;
     print_fails := fun _ => false;
     open_fails := fun _ => false |}.

(** Every drawing call raises. *)
Definition world_draw_fails : World :=
  {| pil_importable := true;
     image_new_raises := None;
     draw_raises := fun _ => Some ValueError;
     truetype_raises := None;
     load_default_raises := None;
     textbbox := fun _ => Ok (40, 100, 380, 470);
     save_raises := None;
     print_fails := fun _ => false;
     open_fails := fun _ => false |}.

(** A world in which nothing fails. *)
Definition quiet (w : World) : Prop :=
  pil_importable w = true /\
  image_new_raises w = None /\
  (forall c, draw_raises w c = None) /\
  (truetype_raises w = None \/ load_default_raises w = None) /\
  (forall f, exists bbox, textbbox w f = Ok bbox) /\
  save_raises w = None /\
  (forall s, print_fails w s = false) /\
  (forall p, open_fails w p = false).

(** A computation that leaves the output of the run alone. *)
Definition silent {A} (c : M A) : Prop :=
  forall st r st', c st = (r, st') -> output st' = output st.

(** * Properties *)

(** ** Ranges *)

Lemma range_from_In (n : nat) (start step y : Z) :
  In y (range_from n start step) <->
  exists k, (k < n)%nat /\ y = start + Z.of_nat k * step.
Proof.
  revert start. induction n as [|n IH]; intros start; simpl.
  - split; [tauto | intros (k & Hk & _); lia].
  - rewrite IH. split.
    + intros [<- | (k & Hk & ->)].
      * exists 0%nat. split; lia.
      * exists (S k). split; lia.
    + intros (k & Hk & ->). destruct k as [|k].
      * left. lia.
      * right. exists k. split; lia.
Qed.

Lemma range_from_snoc (n : nat) (start step : Z) :
  range_from (S n) start step =
  (range_from n start step ++ [start + Z.of_nat n * step])%list.
Proof.
  revert start. induction n as [|n IH]; intros start.
  - simpl. f_equal. lia.
  - change (range_from (S (S n)) start step)
      with (start :: range_from (S n) (start + step) step).
    rewrite IH. rewrite Nat2Z.inj_succ.
    change (range_from (S n) start step)
      with (start :: range_from n (start + step) step).
    simpl app. do 3 f_equal. ring.
Qed.

Lemma py_range_up (n y : Z) :
  In y (py_range 0 n 1) <-> 0 <= y < n.
Proof.
  unfold py_range. change (0 <? 1) with true. cbv iota.
  replace ((n - 0 + 1 - 1) / 1) with n by (rewrite Z.div_1_r; lia).
  rewrite range_from_In. split.
  - intros (k & Hk & ->). lia.
  - intros Hy. exists (Z.to_nat y). split; lia.
Qed.

Lemma py_range_down (n i : Z) :
  In i (py_range n 0 (-1)) <-> 1 <= i <= n.
Proof.
  unfold py_range. change (0 <? -1) with false. change (-1 <? 0) with true.
  cbv iota. change (- -1) with 1.
  replace ((n - 0 - -1 - 1) / 1) with n by (rewrite Z.div_1_r; lia).
  rewrite range_from_In. split.
  - intros (k & Hk & ->). lia.
  - intros Hi. exists (Z.to_nat (n - i)). split; lia.
Qed.

Lemma forallb_py_range_up (P : Z -> bool) (n y : Z) :
  forallb P (py_range 0 n 1) = true -> 0 <= y < n -> P y = true.
Proof.
  intros H Hy. rewrite forallb_forall in H. apply H, py_range_up, Hy.
Qed.

Lemma forallb_py_range_down (P : Z -> bool) (n i : Z) :
  forallb P (py_range n 0 (-1)) = true -> 1 <= i <= n -> P i = true.
Proof.
  intros H Hi. rewrite forallb_forall in H. apply H, py_range_down, Hi.
Qed.

Lemma result_Z_is_true (r : result Z) (v : Z) :
  result_Z_is r v = true -> r = Ok v.
Proof.
  destruct r as [a|e]; simpl; [|discriminate].
  intros H. apply Z.eqb_eq in H. now subst.
Qed.

Lemma result_rgba_is_true (r : result rgba) (v : rgba) :
  result_rgba_is r v = true -> r = Ok v.
Proof.
  destruct r as [[[[a0 a1] a2] a3]|e]; simpl; [|discriminate].
  destruct v as [[[b0 b1] b2] b3].
  rewrite !andb_true_iff, !Z.eqb_eq. intros [[[-> ->] ->] ->]. reflexivity.
Qed.

(** ** The numeric loops agree with exact arithmetic *)

Lemma gradient_color_exact (y : Z) :
  0 <= y < size -> gradient_color y = Ok (Exact.row_color y).
Proof.
  intros Hy. apply result_rgba_is_true.
  apply (forallb_py_range_up
           (fun y => result_rgba_is (gradient_color y) (Exact.row_color y)) size);
    [vm_compute; reflexivity | exact Hy].
Qed.

Lemma overlay_alpha_exact (i : Z) :
  1 <= i <= size / 4 -> overlay_alpha i = Ok (Exact.overlay_alpha i).
Proof.
  intros Hi. apply result_Z_is_true.
  apply (forallb_py_range_down
           (fun i => result_Z_is (overlay_alpha i) (Exact.overlay_alpha i))
           (size / 4));
    [vm_compute; reflexivity | exact Hi].
Qed.

Lemma glow_alpha_exact (offset : Z) :
  1 <= offset <= 10 -> glow_alpha offset = Ok (Exact.glow_alpha offset).
Proof.
  intros Ho. apply result_Z_is_true.
  apply (forallb_py_range_down
           (fun i => result_Z_is (glow_alpha i) (Exact.glow_alpha i)) 10);
    [vm_compute; reflexivity | exact Ho].
Qed.

Lemma progress_exact (y : Z) :
  0 <= y < size -> fraction_is y (Exact.fraction y).
Proof.
  intros Hy.
  assert (H : PyFloat.Qeq_opt (PyFloat.to_Q (progress y)) (Exact.fraction y) = true).
  { apply (forallb_py_range_up
             (fun y => PyFloat.Qeq_opt (PyFloat.to_Q (progress y)) (Exact.fraction y))
             size); [vm_compute; reflexivity | exact Hy]. }
  unfold PyFloat.Qeq_opt in H.
  destruct (PyFloat.to_Q (progress y)) as [p|] eqn:E; [|discriminate].
  exists p. split; [exact E | now apply Qeq_bool_iff].
Qed.

(** ** Sequencing, and what leaves the output alone *)

Lemma bind_inv_ok {A B} (c : M A) (k : A -> M B) st b st' :
  (x <- c ;; k x) st = (Ok b, st') ->
  exists a st1, c st = (Ok a, st1) /\ k a st1 = (Ok b, st').
Proof.
  unfold bind. destruct (c st) as [[a|e] st1]; intros H.
  - now exists a, st1.
  - discriminate.
Qed.

Lemma bind_inv_raise {A B} (c : M A) (k : A -> M B) st e st' :
  (x <- c ;; k x) st = (Raise e, st') ->
  c st = (Raise e, st') \/
  exists a st1, c st = (Ok a, st1) /\ k a st1 = (Raise e, st').
Proof.
  unfold bind. destruct (c st) as [[a|e'] st1]; intros H.
  - right. now exists a, st1.
  - left. inversion H. reflexivity.
Qed.

Lemma lift_inv_ok {A} (r : result A) st a st' :
  lift r st = (Ok a, st') -> r = Ok a /\ st' = st.
Proof.
  destruct r as [a'|e]; simpl; unfold ret, raise; intros H; inversion H; auto.
Qed.

Create HintDb silent.

Lemma silent_ret {A} (a : A) : silent (ret a).
Proof. intros st r st' H. inversion H. reflexivity. Qed.

Lemma silent_raise {A} (e : exn) : silent (@raise A e).
Proof. intros st r st' H. inversion H. reflexivity. Qed.

Lemma silent_lift {A} (r : result A) : silent (lift r).
Proof. destruct r; [apply silent_ret | apply silent_raise]. Qed.

Lemma silent_may_raise (o : option exn) : silent (may_raise o).
Proof. destruct o; [apply silent_raise | apply silent_ret]. Qed.

Lemma silent_bind {A B} (c : M A) (k : A -> M B) :
  silent c -> (forall a, silent (k a)) -> silent (x <- c ;; k x).
Proof.
  intros Hc Hk st r st'. unfold bind.
  destruct (c st) as [[a|e] st1] eqn:E; intros H.
  - rewrite (Hk a _ _ _ H). exact (Hc _ _ _ E).
  - inversion H; subst. exact (Hc _ _ _ E).
Qed.

Lemma silent_for {A} (xs : list A) (body : A -> M unit) :
  (forall x, silent (body x)) -> silent (for_ xs body).
Proof.
  intros Hb. induction xs as [|x xs IH]; simpl.
  - apply silent_ret.
  - apply silent_bind; [apply Hb | intros _; exact IH].
Qed.

Lemma silent_try_except {A} (body handler : M A) :
  silent body -> silent handler -> silent (try_except body handler).
Proof.
  intros Hb Hh st r st'. unfold try_except.
  destruct (body st) as [[a|e] st1] eqn:E; intros H.
  - inversion H; subst. exact (Hb _ _ _ E).
  - rewrite (Hh _ _ _ H). exact (Hb _ _ _ E).
Qed.

Lemma silent_draw (w : World) (c : draw_cmd) : silent (draw w c).
Proof.
  intros st r st'. unfold draw.
  destruct (draw_raises w c); intros H; inversion H; reflexivity.
Qed.

Lemma silent_new_image (w : World) : silent (new_image w).
Proof.
  apply silent_bind; [apply silent_may_raise|].
  intros _ st r st' H. inversion H. reflexivity.
Qed.

#[local] Hint Resolve silent_ret silent_raise silent_lift silent_may_raise
  silent_draw silent_new_image : silent.
#[local] Hint Extern 2 (silent (bind _ _)) =>
  apply silent_bind; [|intro] : silent.
#[local] Hint Extern 2 (silent (for_ _ _)) =>
  apply silent_for; intro : silent.
#[local] Hint Extern 2 (silent (try_except _ _)) =>
  apply silent_try_except : silent.

Lemma silent_render (w : World) : silent (render w).
Proof.
  unfold render, gradient_row, overlay_ring, load_font.
  apply silent_bind; [auto with silent | intros _].
  apply silent_bind; [auto with silent | intros _].
  apply silent_bind; [auto with silent | intros _].
  apply silent_bind; [auto 6 with silent | intros f].
  apply silent_bind; [auto with silent | intros bbox].
  destruct (text_position bbox) as [x y].
  unfold draw_glyph, glow_pass. auto 6 with silent.
Qed.

(** ** The drawing loops *)

Lemma draw_inv_ok (w : World) (c : draw_cmd) st u st' :
  draw w c st = (Ok u, st') ->
  canvas st' = (canvas st ++ [c])%list /\ output st' = output st.
Proof.
  unfold draw. destruct (draw_raises w c); intros H; inversion H.
  split; reflexivity.
Qed.

Lemma for_draw_canvas {A} (w : World) (g : Z -> result A) (h : Z -> A)
    (mk : Z -> A -> draw_cmd) (xs : list Z) st u st' :
  (forall x, In x xs -> g x = Ok (h x)) ->
  for_ xs (fun x => v <- lift (g x) ;; draw w (mk x v)) st = (Ok u, st') ->
  canvas st' = (canvas st ++ map (fun x => mk x (h x)) xs)%list.
Proof.
  revert st. induction xs as [|x xs IH]; intros st Hg H.
  - simpl in H. inversion H. now rewrite app_nil_r.
  - simpl in H. apply bind_inv_ok in H. destruct H as (u1 & st1 & H1 & H2).
    apply bind_inv_ok in H1. destruct H1 as (v & st0 & Hv & Hd).
    apply lift_inv_ok in Hv. destruct Hv as [Hv ->].
    rewrite (Hg x (or_introl eq_refl)) in Hv. inversion Hv; subst v.
    apply draw_inv_ok in Hd. destruct Hd as [Hc _].
    rewrite (IH st1 (fun y Hy => Hg y (or_intror Hy)) H2), Hc.
    simpl. now rewrite <- app_assoc.
Qed.

Lemma gradient_loop_canvas (w : World) st u st' :
  for_ (py_range 0 size 1) (gradient_row w) st = (Ok u, st') ->
  canvas st' = (canvas st ++ gradient_cmds)%list.
Proof.
  intros H.
  apply (for_draw_canvas w gradient_color Exact.row_color
           (fun y c => Rectangle 0 y size (y + 1) c) _ _ _ _) in H.
  - exact H.
  - intros y Hy. apply gradient_color_exact, py_range_up, Hy.
Qed.

Lemma overlay_loop_canvas (w : World) st u st' :
  for_ (py_range (size / 4) 0 (-1)) (overlay_ring w) st = (Ok u, st') ->
  canvas st' = (canvas st ++ overlay_cmds)%list.
Proof.
  intros H.
  apply (for_draw_canvas w overlay_alpha Exact.overlay_alpha
           (fun i a => Ellipse (size / 2 - i) (size / 2 - i)
                         (size / 2 + i) (size / 2 + i) (white a) 2) _ _ _ _) in H.
  - exact H.
  - intros i Hi. apply overlay_alpha_exact, py_range_down, Hi.
Qed.

Lemma draw_glyph_canvas (w : World) (x y : Z) (f : font) st u st' :
  draw_glyph w x y f st = (Ok u, st') ->
  canvas st' = (canvas st ++ glyph_cmds x y f)%list.
Proof.
  unfold draw_glyph. intros H.
  apply bind_inv_ok in H. destruct H as (u1 & st1 & H1 & H2).
  apply (for_draw_canvas w glow_alpha Exact.glow_alpha
           (fun _ a => Text x y text f (white a)) _ _ _ _) in H1.
  - apply draw_inv_ok in H2. destruct H2 as [H2 _].
    rewrite H2, H1. unfold glyph_cmds, glow_alphas.
    rewrite map_map, <- app_assoc. reflexivity.
  - intros o Ho. apply glow_alpha_exact, py_range_down, Ho.
Qed.

(** ** The two phases of [create_app_icon] *)

Lemma create_app_icon_split (w : World) st :
  create_app_icon w st = (render w ;; publish w) st.
Proof.
  unfold create_app_icon, render, publish, bind.
  destruct (new_image w st) as [[u0|e0] s0]; [|reflexivity].
  destruct (for_ (py_range 0 size 1) (gradient_row w) s0) as [[u1|e1] s1];
    [|reflexivity].
  destruct (for_ (py_range (size / 4) 0 (-1)) (overlay_ring w) s1)
    as [[u2|e2] s2]; [|reflexivity].
  destruct (load_font w s2) as [[f|e3] s3]; [|reflexivity].
  destruct (lift (textbbox w f) s3) as [[bbox|e4] s4]; [|reflexivity].
  destruct (text_position bbox) as [x y].
  destruct (draw_glyph w x y f s4) as [[u5|e5] s5]; reflexivity.
Qed.

Lemma new_image_inv_ok (w : World) st u st' :
  new_image w st = (Ok u, st') -> canvas st' = [] /\ output st' = output st.
Proof.
  unfold new_image, bind, may_raise.
  destruct (image_new_raises w); simpl; unfold raise, ret; intros H;
    inversion H; split; reflexivity.
Qed.

Lemma load_font_inv_ok (w : World) st f st' :
  load_font w st = (Ok f, st') -> font_loaded w f /\ st' = st.
Proof.
  unfold load_font, font_loaded, try_except, bind, may_raise.
  destruct (truetype_raises w) as [e|]; simpl.
  - destruct (load_default_raises w) as [e'|]; simpl; intros H;
      inversion H; subst.
    split; [right; repeat split; congruence | reflexivity].
  - intros H; inversion H; subst. split; [left; split; reflexivity | reflexivity].
Qed.

Lemma render_inv_ok (w : World) st u st' :
  render w st = (Ok u, st') ->
  output st' = output st /\
  exists f bbox,
    font_loaded w f /\ textbbox w f = Ok bbox /\
    canvas st' =
      (gradient_cmds ++ overlay_cmds
       ++ glyph_cmds (fst (text_position bbox)) (snd (text_position bbox)) f)%list.
Proof.
  intros H. split; [exact (silent_render w _ _ _ H)|].
  unfold render in H.
  apply bind_inv_ok in H. destruct H as (u0 & s0 & H0 & H).
  apply bind_inv_ok in H. destruct H as (u1 & s1 & H1 & H).
  apply bind_inv_ok in H. destruct H as (u2 & s2 & H2 & H).
  apply bind_inv_ok in H. destruct H as (f & s3 & H3 & H).
  apply bind_inv_ok in H. destruct H as (bbox & s4 & H4 & H).
  apply new_image_inv_ok in H0. destruct H0 as [C0 _].
  apply gradient_loop_canvas in H1. rewrite C0 in H1. simpl in H1.
  apply overlay_loop_canvas in H2. rewrite H1 in H2.
  apply load_font_inv_ok in H3. destruct H3 as [Hf ->].
  apply lift_inv_ok in H4. destruct H4 as [Hb ->].
  exists f, bbox. repeat split; [exact Hf | exact Hb |].
  destruct (text_position bbox) as [x y]. simpl fst. simpl snd.
  apply draw_glyph_canvas in H. rewrite H, H2, <- app_assoc. reflexivity.
Qed.

Lemma publish_inv (w : World) st r st' :
  publish w st = (r, st') ->
  exists n, (n <= 4)%nat /\
    output st' = (output st ++ firstn n (published (canvas st)))%list /\
    (r = Ok tt <-> n = 4%nat) /\
    (forall e, r = Raise e -> isinstance_ImportError e = true -> n = 0%nat).
Proof.
  unfold publish, bind, save, may_raise, print, write_file, emit, raise, ret.
  destruct (save_raises w) as [e0|].
  { intros H; inversion H; subst. exists 0%nat. simpl. rewrite app_nil_r.
    repeat split; try lia; try discriminate; auto. }
  destruct (print_fails w ("✅ Created app icon: " ++ icon_path)).
  { intros H; inversion H; subst. exists 1%nat. simpl.
    repeat split; try lia; try discriminate.
    intros e He; inversion He; subst; discriminate. }
  destruct (open_fails w contents_path).
  { intros H; inversion H; subst. exists 2%nat. simpl. rewrite <- app_assoc.
    repeat split; try lia; try discriminate.
    intros e He; inversion He; subst; discriminate. }
  destruct (print_fails w "✅ Updated Contents.json").
  { intros H; inversion H; subst. exists 3%nat. simpl. rewrite <- !app_assoc.
    repeat split; try lia; try discriminate.
    intros e He; inversion He; subst; discriminate. }
  intros H; inversion H; subst. exists 4%nat. simpl. rewrite <- !app_assoc.
  repeat split; try lia; try discriminate.
Qed.

Lemma create_app_icon_inv (w : World) st r st' :
  create_app_icon w st = (r, st') ->
  exists n cv, (n <= 4)%nat /\
    output st' = (output st ++ firstn n (published cv))%list /\
    (r = Ok tt <-> n = 4%nat) /\
    (forall e, r = Raise e -> isinstance_ImportError e = true -> n = 0%nat) /\
    (n <> 0%nat -> rendered w cv).
Proof.
  rewrite create_app_icon_split. unfold bind at 1.
  destruct (render w st) as [[u|e] s1] eqn:R.
  - intros P. apply render_inv_ok in R. destruct R as (O1 & f & bbox & Hf & Hb & Hc).
    apply publish_inv in P. destruct P as (n & Hn & Ho & Hr & He).
    exists n, (canvas s1). rewrite Ho, O1. repeat split; try tauto; auto.
    intros _. exists f, bbox. auto.
  - intros P. inversion P; subst. exists 0%nat, []. simpl. rewrite app_nil_r.
    repeat split; try lia; try discriminate; try tauto.
    exact (silent_render w _ _ _ R).
Qed.

(** ** The fallback branch and the whole run *)

Lemma png_data_decoded : png_data = Some fallback_bytes.
Proof. vm_compute. reflexivity. Qed.

Lemma fallback_inv (w : World) st r st' :
  fallback w st = (r, st') ->
  exists n, (n <= 3)%nat /\
    output st' = (output st ++ firstn n (fallback_events fallback_bytes))%list /\
    (r = Ok tt <-> n = 3%nat).
Proof.
  unfold fallback. rewrite png_data_decoded.
  unfold bind, print, write_file, emit, raise, ret, fallback_events, fallback_notice.
  destruct (print_fails w "⚠️  PIL not installed. Using fallback method...").
  { intros H; inversion H; subst. exists 0%nat. simpl. rewrite app_nil_r.
    repeat split; try lia; try discriminate. }
  destruct (open_fails w icon_path).
  { intros H; inversion H; subst. exists 1%nat. simpl.
    repeat split; try lia; try discriminate. }
  destruct (print_fails w "✅ Created placeholder app icon").
  { intros H; inversion H; subst. exists 2%nat. simpl. rewrite <- app_assoc.
    repeat split; try lia; try discriminate. }
  intros H; inversion H; subst. exists 3%nat. simpl. rewrite <- !app_assoc.
  repeat split; try lia; try discriminate.
Qed.

Lemma run_cases (w : World) :
  (pil_importable w = false /\
   run w = (Raise ModuleNotFoundError, initial_state))
  \/ (pil_importable w = true /\
      run w =
        match create_app_icon w initial_state with
        | (Ok u, st1) => (Ok u, st1)
        | (Raise e, st1) =>
            if isinstance_ImportError e then fallback w st1 else (Raise e, st1)
        end).
Proof.
  unfold run, main, bind, try_except_ImportError, import_PIL.
  destruct (pil_importable w).
  - right. split; [reflexivity|]. unfold ret.
    destruct (create_app_icon w initial_state) as [[u|e] st1]; reflexivity.
  - left. split; reflexivity.
Qed.

(** Every run is of one of two kinds: the fallback branch ran, and the
    events are a prefix of its three; or it did not, and the events are a
    prefix of the four of [publish] (none when the import of line 4 fails or
    the drawing raises). *)
Lemma run_events (w : World) :
  (exists n, (n <= 3)%nat /\ on_fallback_path w /\
     events w = firstn n (fallback_events fallback_bytes) /\
     (fst (run w) = Ok tt <-> n = 3%nat))
  \/ (exists n cv, (n <= 4)%nat /\ ~ on_fallback_path w /\
        events w = firstn n (published cv) /\
        (n <> 0%nat -> rendered w cv) /\
        (on_success_path w <-> n = 4%nat) /\
        (fst (run w) = Ok tt <-> n = 4%nat)).
Proof.
  unfold events. destruct (run_cases w) as [[Hp Hr] | [Hp Hr]].
  - right. exists 0%nat, []. rewrite Hr. simpl.
    unfold on_fallback_path, on_success_path. rewrite Hp.
    repeat split; try lia; try discriminate; try tauto.
  - destruct (create_app_icon w initial_state) as [[u|e] st1] eqn:C.
    + right. destruct u. destruct (create_app_icon_inv w _ _ _ C)
        as (n & cv & Hn & Ho & Hok & _ & Hcv).
      assert (n = 4%nat) as -> by (apply Hok; reflexivity).
      exists 4%nat, cv. rewrite Hr. simpl fst. simpl snd. rewrite Ho.
      unfold on_fallback_path, on_success_path. rewrite C.
      repeat split; try lia; auto.
      * intros (_ & e & st' & H & _). discriminate.
      * exists st1. reflexivity.
    + destruct (isinstance_ImportError e) eqn:I.
      * left. destruct (create_app_icon_inv w _ _ _ C)
          as (n & cv & Hn & Ho & _ & Hie & _).
        rewrite (Hie e eq_refl I) in Ho. simpl in Ho.
        destruct (fallback w st1) as [r st2] eqn:F.
        destruct (fallback_inv w _ _ _ F) as (m & Hm & Hfo & Hfr).
        exists m. rewrite Hr. simpl fst. simpl snd. rewrite Hfo, Ho.
        repeat split; auto; try apply Hfr.
        exists e, st1. auto.
      * right. destruct (create_app_icon_inv w _ _ _ C)
          as (n & cv & Hn & Ho & Hok & _ & Hcv).
        assert (n <> 4%nat) by (intros Hn4; apply Hok in Hn4; discriminate).
        exists n, cv. rewrite Hr. simpl fst. simpl snd. rewrite Ho.
        unfold on_fallback_path, on_success_path. rewrite C.
        repeat split; auto; try discriminate; try tauto.
        -- intros (_ & e' & st' & H' & I'). inversion H'; subst. congruence.
        -- intros (_ & st' & H'). discriminate.
Qed.

Lemma for_draw_total {A} (w : World) (g : Z -> result A) (h : Z -> A)
    (mk : Z -> A -> draw_cmd) (xs : list Z) st :
  (forall c, draw_raises w c = None) ->
  (forall x, In x xs -> g x = Ok (h x)) ->
  for_ xs (fun x => v <- lift (g x) ;; draw w (mk x v)) st =
  (Ok tt, {| canvas := (canvas st ++ map (fun x => mk x (h x)) xs)%list;
             output := output st |}).
Proof.
  intros Hd. revert st. induction xs as [|x xs IH]; intros st Hg.
  - simpl. unfold ret. destruct st; simpl. now rewrite app_nil_r.
  - simpl. unfold bind at 1. unfold bind at 1.
    rewrite (Hg x (or_introl eq_refl)). simpl. unfold ret, draw.
    rewrite Hd. rewrite (IH _ (fun y Hy => Hg y (or_intror Hy))). simpl.
    now rewrite <- app_assoc.
Qed.

(** ** The canvas after the gradient loop *)

Lemma paint_all_app (cs1 cs2 : list draw_cmd) (px : Canvas.pixels) :
  Canvas.paint_all (cs1 ++ cs2) px =
  match Canvas.paint_all cs1 px with
  | Some px' => Canvas.paint_all cs2 px'
  | None => None
  end.
Proof.
  revert px. induction cs1 as [|c cs1 IH]; intros px; simpl.
  - reflexivity.
  - destruct (Canvas.paint c px); [apply IH | reflexivity].
Qed.

Lemma gradient_rows_painted (n : nat) :
  exists px,
    Canvas.paint_all
      (map (fun y => Rectangle 0 y size (y + 1) (Exact.row_color y))
         (range_from n 0 1)) Canvas.blank = Some px /\
    forall x y, 0 <= x <= size -> 0 <= y < Z.of_nat n ->
                px x y = Exact.row_color y.
Proof.
  induction n as [|n (px & Hpx & Hrows)].
  - exists Canvas.blank. split; [reflexivity | intros; lia].
  - rewrite range_from_snoc, map_app, paint_all_app, Hpx.
    replace (0 + Z.of_nat n * 1) with (Z.of_nat n) by lia.
    cbn [map Canvas.paint_all Canvas.paint].
    eexists. split; [reflexivity|].
    intros x y Hx Hy. cbv beta.
    destruct (Z.eq_dec y (Z.of_nat n)) as [-> | Hne].
    + assert (Canvas.in_box 0 (Z.of_nat n) size (Z.of_nat n + 1) x (Z.of_nat n)
              = true) as ->; [|reflexivity].
      unfold Canvas.in_box. rewrite !andb_true_iff, !Z.leb_le. lia.
    + assert (Canvas.in_box 0 (Z.of_nat n) size (Z.of_nat n + 1) x y
              = false) as ->; [|apply Hrows; lia].
      unfold Canvas.in_box. rewrite !andb_false_iff, !Z.leb_gt. lia.
Qed.

Lemma gradient_painted :
  exists px,
    Canvas.paint_all gradient_cmds Canvas.blank = Some px /\
    forall x y, 0 <= x < size -> 0 <= y < size -> px x y = Exact.row_color y.
Proof.
  destruct (gradient_rows_painted (Z.to_nat size)) as (px & Hpx & Hrows).
  exists px. split.
  - exact Hpx.
  - intros x y Hx Hy. apply Hrows; [lia|].
    change (Z.of_nat (Z.to_nat size)) with size. exact Hy.
Qed.

(** ** Runs in which nothing fails, and runs without the imaging library *)

Lemma literals_rounded :
  PyFloat.lit_0_3 = PyFloat.truediv 3 10 /\
  PyFloat.lit_0_5 = PyFloat.truediv 1 2.
Proof. split; vm_compute; reflexivity. Qed.

Lemma gradient_loop_total (w : World) st :
  (forall c, draw_raises w c = None) ->
  for_ (py_range 0 size 1) (gradient_row w) st =
  (Ok tt, {| canvas := (canvas st ++ gradient_cmds)%list; output := output st |}).
Proof.
  intros Hd.
  exact (for_draw_total w gradient_color Exact.row_color
           (fun y c => Rectangle 0 y size (y + 1) c) (py_range 0 size 1) st Hd
           (fun y Hy => gradient_color_exact y (proj1 (py_range_up size y) Hy))).
Qed.

Lemma overlay_loop_total (w : World) st :
  (forall c, draw_raises w c = None) ->
  for_ (py_range (size / 4) 0 (-1)) (overlay_ring w) st =
  (Ok tt, {| canvas := (canvas st ++ overlay_cmds)%list; output := output st |}).
Proof.
  intros Hd.
  exact (for_draw_total w overlay_alpha Exact.overlay_alpha
           (fun i a => Ellipse (size / 2 - i) (size / 2 - i)
                         (size / 2 + i) (size / 2 + i) (white a) 2)
           (py_range (size / 4) 0 (-1)) st Hd
           (fun i Hi => overlay_alpha_exact i
                          (proj1 (py_range_down (size / 4) i) Hi))).
Qed.

Lemma load_font_total (w : World) st :
  truetype_raises w = None \/ load_default_raises w = None ->
  exists f, load_font w st = (Ok f, st).
Proof.
  unfold load_font, try_except, bind, may_raise, raise, ret.
  destruct (truetype_raises w) as [e|]; simpl.
  - intros [H|H]; [discriminate|]. rewrite H. simpl. now exists DefaultFont.
  - intros _. eexists. reflexivity.
Qed.

Lemma draw_glyph_total (w : World) (x y : Z) (f : font) st :
  (forall c, draw_raises w c = None) ->
  exists st', draw_glyph w x y f st = (Ok tt, st') /\ output st' = output st.
Proof.
  intros Hd.
  destruct (draw_glyph w x y f st) as [[[]|e] st'] eqn:E.
  - exists st'. split; [reflexivity|].
    assert (Hs : silent (draw_glyph w x y f))
      by (unfold draw_glyph, glow_pass; auto 6 with silent).
    exact (Hs _ _ _ E).
  - exfalso. unfold draw_glyph in E. apply bind_inv_raise in E.
    destruct E as [E | (u & s1 & _ & E)].
    + pose proof (for_draw_total w glow_alpha Exact.glow_alpha
                    (fun _ a => Text x y text f (white a)) (py_range 10 0 (-1))
                    st Hd
                    (fun o Ho => glow_alpha_exact o
                                   (proj1 (py_range_down 10 o) Ho))) as T.
      change (for_ (py_range 10 0 (-1)) (glow_pass w x y f) st) with
        (for_ (py_range 10 0 (-1))
           (fun o => v <- lift (glow_alpha o) ;; draw w (Text x y text f (white v)))
           st) in E.
      rewrite T in E. discriminate.
    + unfold draw in E. rewrite Hd in E. discriminate.
Qed.

(** Where nothing fails, [create_app_icon] returns: the success path is
    taken, whatever the glyph measures. *)
Lemma quiet_world_succeeds (w : World) : quiet w -> on_success_path w.
Proof.
  intros (Hp & Hn & Hd & Hf & Hb & Hs & Hpr & Hop).
  split; [exact Hp|].
  destruct (load_font_total w
              {| canvas := ([] ++ gradient_cmds) ++ overlay_cmds; output := [] |} Hf)
    as (f & Hfont).
  destruct (Hb f) as (bbox & Hbbox).
  destruct (text_position bbox) as [x y] eqn:Etp.
  destruct (draw_glyph_total w x y f
              {| canvas := ([] ++ gradient_cmds) ++ overlay_cmds; output := [] |} Hd)
    as (s5 & Hg & Ho).
  eexists. rewrite create_app_icon_split.
  unfold bind at 1. unfold render, bind at 1.
  unfold new_image, bind at 1. rewrite Hn. unfold may_raise, ret at 1.
  cbv beta iota. unfold bind at 1.
  rewrite (gradient_loop_total w _ Hd). cbn [canvas output]. unfold bind at 1.
  rewrite (overlay_loop_total w _ Hd). cbn [canvas output]. unfold bind at 1.
  change (output initial_state) with (@nil event).
  rewrite Hfont. unfold bind at 1. rewrite Hbbox. unfold lift, ret at 1.
  cbv beta iota. rewrite Etp, Hg.
  unfold publish, bind, save, may_raise, print, write_file, emit, ret.
  rewrite Hs, !Hpr, Hop. reflexivity.
Qed.

(** Without the imaging library the import of line 4 ends the run: nothing
    is printed, nothing is written, the guarded block is not entered. *)
Lemma run_without_pil (w : World) :
  pil_importable w = false ->
  run w = (Raise ModuleNotFoundError, initial_state) /\ events w = [].
Proof.
  intros Hp. unfold events.
  destruct (run_cases w) as [[_ Hr] | [Hp' _]]; [|congruence].
  rewrite Hr. split; reflexivity.
Qed.


(** The reference worlds take the paths they are named for. *)

Lemma late_import_error_falls_back : on_fallback_path world_late_import_error.
Proof.
  split; [reflexivity|].
  exists ImportError, (snd (create_app_icon world_late_import_error initial_state)).
  split; [vm_compute; reflexivity | reflexivity].
Defined.

Lemma working_world_succeeds :
  on_success_path (working_world (40, 100, 380, 470)).
Proof.
  split; [reflexivity|].
  exists (snd (create_app_icon (working_world (40, 100, 380, 470)) initial_state)).
  vm_compute. reflexivity.
Defined.

Lemma world_without_helvetica_succeeds :
  on_success_path world_without_helvetica.
Proof.
  split; [reflexivity|].
  exists (snd (create_app_icon world_without_helvetica initial_state)).
  vm_compute. reflexivity.
Defined.

(** * The claims *)

(** ** The gradient (lines 16-22) *)

(** C4, as the code has it: for every row [0 <= y < size] the interpolation
    fraction is exactly [y / size], which is 0 at the top row and
    [(size - 1) / size], below 1, at the bottom row; the row color is the
    blend of (100, 50, 255) and (40, 100, 255) by that fraction, each channel
    truncated to an integer, with alpha 255; the loop body issues one
    [rectangle] call from [(0, y)] to [(size, y + 1)] in that color; and when
    the loop is over every pixel of row [y] of the canvas carries that
    color. *)
Theorem gradient_row_blend (y : Z) :
  0 <= y < size ->
  fraction_is y (Exact.fraction y) /\
  (0 <= Exact.fraction y < 1)%Q /\
  (Exact.fraction 0 == 0)%Q /\
  (Exact.fraction (size - 1) == 1023 # 1024)%Q /\
  gradient_color y = Ok (Exact.row_color y) /\
  snd (Exact.row_color y) = 255 /\
  (forall w st,
      draw_raises w (Rectangle 0 y size (y + 1) (Exact.row_color y)) = None ->
      gradient_row w y st =
      (Ok tt, {| canvas := (canvas st
                            ++ [Rectangle 0 y size (y + 1) (Exact.row_color y)])%list;
                 output := output st |})) /\
  (forall w st u st',
      for_ (py_range 0 size 1) (gradient_row w) st = (Ok u, st') ->
      canvas st' = (canvas st ++ gradient_cmds)%list) /\
  (exists px,
      Canvas.paint_all gradient_cmds Canvas.blank = Some px /\
      forall x, 0 <= x < size -> px x y = Exact.row_color y).
Proof.
  intros Hy. split; [apply progress_exact, Hy|].
  split.
  { unfold size in Hy. unfold Exact.fraction, size, Qdiv, Qle, Qlt. simpl. lia. }
  split; [reflexivity|]. split; [reflexivity|].
  split; [apply gradient_color_exact, Hy|].
  split; [reflexivity|].
  split.
  { intros w st Hd. unfold gradient_row, bind.
    rewrite (gradient_color_exact y Hy). simpl. unfold ret, draw.
    rewrite Hd. reflexivity. }
  split; [intros w st u st'; apply gradient_loop_canvas|].
  destruct gradient_painted as (px & Hpx & Hrows).
  exists px. split; [exact Hpx | intros x Hx; apply Hrows; assumption].
Qed.

Lemma gradient_row_blend_witness :
  0 <= 512 < size /\
  gradient_color 512 = Ok (70, 75, 255, 255) /\
  fraction_is 512 (1 # 2).
Proof.
  assert (H : 0 <= 512 < size) by (unfold size; lia).
  split; [exact H|].
  destruct (gradient_row_blend 512 H) as (Hf & _ & _ & _ & Hc & _).
  split; [exact Hc|].
  destruct Hf as (p & Hp & Hq). exists p. split; [exact Hp|].
  rewrite Hq. reflexivity.
Defined.

(** C4, as stated, fails at the bottom row: there the fraction is
    1023/1024, not 1, and the color is (40, 99, 255), not the endpoint
    (40, 100, 255). *)
Lemma gradient_fraction_bottom_row :
  fraction_is (size - 1) (1023 # 1024) /\
  ~ fraction_is (size - 1) 1 /\
  gradient_color (size - 1) = Ok (40, 99, 255, 255).
Proof.
  split; [|split].
  - eexists. split; [vm_compute; reflexivity | reflexivity].
  - intros (p & Hp & Hq). vm_compute in Hp. inversion Hp; subst p.
    vm_compute in Hq. discriminate.
  - vm_compute. reflexivity.
Qed.



(** ** The radial overlay (lines 25-33) *)

(** C5: the overlay loop runs the radius [i] from [size // 4] down to 1, and
    the ring of radius [i] is an outline, centred on the canvas, of alpha
    [int(255 * (1 - i / (size // 4)) * 0.3)]: the floating-point value the
    script computes is the truncation of the exact product. *)
Theorem overlay_ring_alpha (i : Z) :
  1 <= i <= size / 4 ->
  py_range (size / 4) 0 (-1) =
    map (fun k => size / 4 - Z.of_nat k) (seq 0 256) /\
  In i (py_range (size / 4) 0 (-1)) /\
  overlay_alpha i = Ok (Exact.overlay_alpha i) /\
  (forall w st,
      draw_raises w (Ellipse (size / 2 - i) (size / 2 - i)
                       (size / 2 + i) (size / 2 + i)
                       (white (Exact.overlay_alpha i)) 2) = None ->
      overlay_ring w i st =
      (Ok tt, {| canvas := (canvas st
                            ++ [Ellipse (size / 2 - i) (size / 2 - i)
                                  (size / 2 + i) (size / 2 + i)
                                  (white (Exact.overlay_alpha i)) 2])%list;
                 output := output st |})) /\
  (forall w st u st',
      for_ (py_range (size / 4) 0 (-1)) (overlay_ring w) st = (Ok u, st') ->
      canvas st' = (canvas st ++ overlay_cmds)%list).
Proof.
  intros Hi. split; [vm_compute; reflexivity|].
  split; [apply py_range_down, Hi|].
  split; [apply overlay_alpha_exact, Hi|].
  split.
  - intros w st Hd. unfold overlay_ring, bind.
    rewrite (overlay_alpha_exact i Hi). unfold lift, ret, draw. cbv zeta.
    rewrite Hd. reflexivity.
  - intros w st u st'. apply overlay_loop_canvas.
Qed.

Lemma overlay_ring_alpha_witness :
  1 <= 128 <= size / 4 /\ overlay_alpha 128 = Ok 38.
Proof.
  assert (H : 1 <= 128 <= size / 4) by (vm_compute; split; discriminate).
  split; [exact H|].
  exact (proj1 (proj2 (proj2 (overlay_ring_alpha 128 H)))).
Defined.

(** ** The glyph: placement and glow (lines 46-60) *)

(** C6: from a bounding box of width [w] and height [h] the glyph is placed
    at [x = (size - w) // 2] and [y = (size - h) // 2 - h // 10]: the left
    and right margins differ by at most one pixel, and [y] lies a tenth of
    the height above the vertically centred position.  Every text call of a
    run that saves the icon uses this position, with the box measured for
    the font that was loaded. *)
Theorem glyph_placement (w : World) (cv : list draw_cmd) :
  In (WriteFile icon_path (PNGOf cv)) (events w) ->
  exists f b0 b1 b2 b3,
    font_loaded w f /\
    textbbox w f = Ok (b0, b1, b2, b3) /\
    let text_width := b2 - b0 in
    let text_height := b3 - b1 in
    let x := (size - text_width) / 2 in
    let y := (size - text_height) / 2 - text_height / 10 in
    text_position (b0, b1, b2, b3) = (x, y) /\
    cv = (gradient_cmds ++ overlay_cmds ++ glyph_cmds x y f)%list /\
    (forall x' y' t f' c, In (Text x' y' t f' c) cv -> x' = x /\ y' = y) /\
    0 <= (size - text_width - x) - x <= 1 /\
    0 <= (size - text_height) - 2 * (y + text_height / 10) <= 1 /\
    0 <= text_height - 10 * (text_height / 10) <= 9.
Proof.
  intros Hin.
  assert (Hr : rendered w cv).
  { destruct (run_events w) as [(n & Hn & _ & He & _) | (n & cv' & Hn & _ & He & Hcv & _)];
      rewrite He in Hin.
    - exfalso. destruct n as [|[|[|[|]]]]; simpl in Hin;
        repeat (destruct Hin as [Hin|Hin]; [discriminate|]); exact Hin.
    - destruct n as [|n]; [destruct Hin|].
      assert (cv' = cv) as <-.
      { destruct n as [|[|[|[|]]]]; simpl in Hin;
          repeat (destruct Hin as [Hin|Hin];
                  [first [now inversion Hin | discriminate]|]);
          destruct Hin. }
      apply Hcv. discriminate. }
  destruct Hr as (f & [[[b0 b1] b2] b3] & Hf & Hb & Hcv).
  exists f, b0, b1, b2, b3. split; [exact Hf|]. split; [exact Hb|].
  cbv zeta. split; [reflexivity|].
  split; [exact Hcv|].
  split.
  - intros x' y' t f' c Hc. rewrite Hcv in Hc.
    apply in_app_or in Hc. destruct Hc as [Hc|Hc].
    { unfold gradient_cmds in Hc. apply in_map_iff in Hc.
      destruct Hc as (? & Hc & _). discriminate. }
    apply in_app_or in Hc. destruct Hc as [Hc|Hc].
    { unfold overlay_cmds in Hc. apply in_map_iff in Hc.
      destruct Hc as (? & Hc & _). discriminate. }
    unfold glyph_cmds in Hc. apply in_app_or in Hc. destruct Hc as [Hc|Hc].
    + apply in_map_iff in Hc. destruct Hc as (? & Hc & _).
      inversion Hc. split; reflexivity.
    + destruct Hc as [Hc|[]]. inversion Hc. split; reflexivity.
  - unfold size.
    pose proof (Z.div_mod (1024 - (b2 - b0)) 2 ltac:(lia)).
    pose proof (Z.mod_pos_bound (1024 - (b2 - b0)) 2 ltac:(lia)).
    pose proof (Z.div_mod (1024 - (b3 - b1)) 2 ltac:(lia)).
    pose proof (Z.mod_pos_bound (1024 - (b3 - b1)) 2 ltac:(lia)).
    pose proof (Z.div_mod (b3 - b1) 10 ltac:(lia)).
    pose proof (Z.mod_pos_bound (b3 - b1) 10 ltac:(lia)).
    lia.
Qed.

Lemma glyph_placement_witness :
  let w := working_world (40, 100, 380, 470) in
  let cv := canvas (snd (run w)) in
  In (WriteFile icon_path (PNGOf cv)) (events w) /\
  (forall x' y' t f' c, In (Text x' y' t f' c) cv -> x' = 342 /\ y' = 290).
Proof.
  intros w cv.
  assert (Hin : In (WriteFile icon_path (PNGOf cv)) (events w))
    by (vm_compute; left; reflexivity).
  split; [exact Hin|].
  destruct (glyph_placement w cv Hin)
    as (f & b0 & b1 & b2 & b3 & _ & Hb & _ & _ & Hall & _).
  simpl in Hb. inversion Hb; subst. exact Hall.
Defined.

(** C3, as the code has it: the glow step renders the glyph ten times at the
    same position [(x, y)] with alpha 0, 12, 25, 38, 51, 63, 76, 89, 102,
    114, increasing from one pass to the next, and then once more at full
    opacity 255; it does so whenever no drawing call raises. *)
Theorem glow_passes_increasing (w : World) (x y : Z) (f : font) (st : state) :
  (forall c, draw_raises w c = None) ->
  py_range 10 0 (-1) = [10; 9; 8; 7; 6; 5; 4; 3; 2; 1] /\
  map glow_alpha (py_range 10 0 (-1)) = map Ok glow_alphas /\
  glow_alphas = [0; 12; 25; 38; 51; 63; 76; 89; 102; 114] /\
  StronglySorted Z.lt glow_alphas /\
  draw_glyph w x y f st =
  (Ok tt,
   {| canvas := (canvas st
                 ++ map (fun a => Text x y text f (white a)) glow_alphas
                 ++ [Text x y text f (white 255)])%list;
      output := output st |}).
Proof.
  intros Hd.
  split; [reflexivity|]. split; [vm_compute; reflexivity|].
  split; [vm_compute; reflexivity|].
  split.
  { change glow_alphas with [0; 12; 25; 38; 51; 63; 76; 89; 102; 114].
    repeat (constructor; [|repeat constructor; lia]). constructor. }
  pose proof (for_draw_total w glow_alpha Exact.glow_alpha
                (fun _ a => Text x y text f (white a)) (py_range 10 0 (-1)) st Hd
                (fun o Ho => glow_alpha_exact o (proj1 (py_range_down 10 o) Ho)))
    as E.
  change (for_ (py_range 10 0 (-1)) (glow_pass w x y f) st = 
          (Ok tt,
           {| canvas := (canvas st
                         ++ map (fun o => Text x y text f (white (Exact.glow_alpha o)))
                              (py_range 10 0 (-1)))%list;
              output := output st |})) in E.
  unfold draw_glyph, bind. rewrite E.
  unfold draw. rewrite Hd. cbn [canvas output]. unfold glow_alphas.
  rewrite map_map, <- app_assoc. reflexivity.
Qed.

Lemma glow_passes_increasing_witness :
  let w := working_world (40, 100, 380, 470) in
  (forall c, draw_raises w c = None) /\
  fst (draw_glyph w 342 290 DefaultFont initial_state) = Ok tt /\
  canvas (snd (draw_glyph w 342 290 DefaultFont initial_state)) =
  [ Text 342 290 text DefaultFont (white 0);
    Text 342 290 text DefaultFont (white 12);
    Text 342 290 text DefaultFont (white 25);
    Text 342 290 text DefaultFont (white 38);
    Text 342 290 text DefaultFont (white 51);
    Text 342 290 text DefaultFont (white 63);
    Text 342 290 text DefaultFont (white 76);
    Text 342 290 text DefaultFont (white 89);
    Text 342 290 text DefaultFont (white 102);
    Text 342 290 text DefaultFont (white 114);
    Text 342 290 text DefaultFont (white 255) ].
Proof.
  intros w.
  assert (Hd : forall c, draw_raises w c = None) by (intros c; reflexivity).
  split; [exact Hd|].
  destruct (glow_passes_increasing w 342 290 DefaultFont initial_state Hd)
    as (_ & _ & Ha & _ & Hg).
  rewrite Hg, Ha. split; reflexivity.
Defined.

(** C3, as stated, fails: from the first glow pass to the second the alpha
    goes up, from 0 to 12, and so on up to 114; it never decreases. *)
Lemma glow_alpha_not_decreasing :
  py_range 10 0 (-1) = [10; 9; 8; 7; 6; 5; 4; 3; 2; 1] /\
  glow_alpha 10 = Ok 0 /\ glow_alpha 9 = Ok 12 /\
  ~ StronglySorted Z.gt glow_alphas.
Proof.
  split; [reflexivity|]. split; [vm_compute; reflexivity|].
  split; [vm_compute; reflexivity|].
  change glow_alphas with [0; 12; 25; 38; 51; 63; 76; 89; 102; 114].
  intros H. inversion H as [|a l _ Hall]; subst.
  inversion Hall as [|b l' Hb _]; subst. lia.
Qed.

(** C9: the first glow pass, [offset = 10], has alpha
    [int(255 * (1 - 10/10) * 0.5) = 0], fully transparent; every pass has an
    alpha of at most [int(255 * 0.9 * 0.5) = 114], below 128. *)
Theorem glow_alpha_bounds (offset : Z) :
  1 <= offset <= 10 ->
  hd_error (py_range 10 0 (-1)) = Some 10 /\
  glow_alpha 10 = Ok 0 /\
  Exact.glow_alpha 10 = 0 /\
  (exists a, glow_alpha offset = Ok a /\ 0 <= a <= 114) /\
  glow_alpha 1 = Ok 114 /\
  Exact.trunc (255 * (9 # 10) * (1 # 2)) = 114 /\
  114 < 128.
Proof.
  intros Ho.
  split; [reflexivity|]. split; [vm_compute; reflexivity|].
  split; [vm_compute; reflexivity|].
  split.
  { assert (H : glow_in_bounds offset = true).
    { apply (forallb_py_range_down glow_in_bounds 10);
        [vm_compute; reflexivity | exact Ho]. }
    unfold glow_in_bounds in H.
    destruct (glow_alpha offset) as [a|e]; [|discriminate].
    rewrite andb_true_iff, !Z.leb_le in H. exists a. split; [reflexivity | exact H]. }
  split; [vm_compute; reflexivity|].
  split; [vm_compute; reflexivity | lia].
Qed.

Lemma glow_alpha_bounds_witness :
  1 <= 5 <= 10 /\ exists a, glow_alpha 5 = Ok a /\ 0 <= a <= 114.
Proof.
  assert (H : 1 <= 5 <= 10) by lia.
  split; [exact H|].
  exact (proj1 (proj2 (proj2 (proj2 (glow_alpha_bounds 5 H))))).
Defined.

(** ** The two outcomes of a run *)




(** C2: in every run the files written are none, the full icon alone, the
    full icon and then the metadata document, or the fallback bitmap alone;
    so the metadata document and the fallback bitmap are never both written,
    the metadata document is never written on the fallback path, it is
    written only after the full icon, and the success path writes both. *)
Theorem outcomes_exclusive (w : World) :
  let ws := file_writes (events w) in
  let doc := TextDoc (Json.dumps contents 2) in
  (ws = []
   \/ (exists cv, rendered w cv /\ ws = [(icon_path, PNGOf cv)])
   \/ (exists cv, rendered w cv /\
                  ws = [(icon_path, PNGOf cv); (contents_path, doc)])
   \/ (on_fallback_path w /\ ws = [(icon_path, Bytes fallback_bytes)])) /\
  ~ (writes_to contents_path (events w) <> [] /\
     In (icon_path, Bytes fallback_bytes) ws) /\
  (on_fallback_path w -> writes_to contents_path (events w) = []) /\
  (writes_to contents_path (events w) <> [] ->
   exists cv, ws = [(icon_path, PNGOf cv); (contents_path, doc)]) /\
  (on_success_path w ->
   exists cv, ws = [(icon_path, PNGOf cv); (contents_path, doc)]).
Proof.
  cbv zeta.
  destruct (run_events w)
    as [(n & Hn & Hf & He & _) | (n & cv & Hn & Hnf & He & Hcv & Hs & _)];
    rewrite He.
  - assert (Hc : writes_to contents_path
                   (firstn n (fallback_events fallback_bytes)) = []).
    { destruct n as [|[|[|[|]]]]; vm_compute; reflexivity. }
    rewrite Hc. split.
    { destruct n as [|[|[|[|]]]]; try lia; simpl; auto. }
    split; [intros [H _]; now apply H|].
    split; [reflexivity|].
    split; [intros H; now contradiction H|].
    intros (_ & st' & Hok). destruct Hf as (_ & e & st'' & Hr & _).
    rewrite Hok in Hr. discriminate.
  - destruct n as [|[|[|[|[|]]]]]; try lia.
    + simpl. split; [auto|]. split; [intros [H _]; now apply H|].
      split; [reflexivity|]. split; [intros H; now contradiction H|].
      intros H. apply Hs in H. discriminate.
    + assert (Hr : rendered w cv) by (apply Hcv; discriminate).
      assert (Hc : writes_to contents_path (firstn 1 (published cv)) = []).
      { reflexivity. }
      rewrite Hc. simpl. split; [right; left; exists cv; auto|].
      split; [intros [H _]; now apply H|].
      split; [reflexivity|]. split; [intros H; now contradiction H|].
      intros H. apply Hs in H. discriminate.
    + assert (Hr : rendered w cv) by (apply Hcv; discriminate).
      assert (Hc : writes_to contents_path (firstn 2 (published cv)) = []).
      { reflexivity. }
      rewrite Hc. simpl. split; [right; left; exists cv; auto|].
      split; [intros [H _]; now apply H|].
      split; [reflexivity|]. split; [intros H; now contradiction H|].
      intros H. apply Hs in H. discriminate.
    + assert (Hr : rendered w cv) by (apply Hcv; discriminate).
      simpl file_writes.
      split; [right; right; left; exists cv; auto|].
      split; [intros [_ [H|[H|[]]]]; discriminate|].
      split; [intros H; contradiction|].
      split; intros _; exists cv; reflexivity.
    + assert (Hr : rendered w cv) by (apply Hcv; discriminate).
      simpl file_writes.
      split; [right; right; left; exists cv; auto|].
      split; [intros [_ [H|[H|[]]]]; discriminate|].
      split; [intros H; contradiction|].
      split; intros _; exists cv; reflexivity.
Qed.

Lemma outcomes_exclusive_witness :
  on_fallback_path world_late_import_error /\
  writes_to contents_path (events world_late_import_error) = [] /\
  on_success_path (working_world (40, 100, 380, 470)) /\
  exists cv,
    file_writes (events (working_world (40, 100, 380, 470))) =
    [(icon_path, PNGOf cv);
     (contents_path, TextDoc (Json.dumps contents 2))].
Proof.
  split; [exact late_import_error_falls_back|].
  split.
  - exact (proj1 (proj2 (proj2 (outcomes_exclusive world_late_import_error)))
             late_import_error_falls_back).
  - split; [exact working_world_succeeds|].
    exact (proj2 (proj2 (proj2 (proj2
             (outcomes_exclusive (working_world (40, 100, 380, 470))))))
             working_world_succeeds).
Defined.

(** ** The metadata document (lines 68-85) *)

Lemma success_writes_document (w : World) :
  on_success_path w ->
  writes_to contents_path (events w) = [TextDoc (Json.dumps contents 2)].
Proof.
  intros Hs.
  destruct (run_events w)
    as [(n & _ & Hf & _) | (n & cv & _ & _ & He & _ & Hn & _)].
  - destruct Hs as (_ & st' & Hok). destruct Hf as (_ & e & st'' & Hr & _).
    rewrite Hok in Hr. discriminate.
  - apply Hn in Hs. subst n. rewrite He. reflexivity.
Qed.

(** C7: on the success path the file written at the metadata path is the
    serialization of [contents] with an indent of 2; parsed, it is the
    object of the specification's scenario: an [images] list of exactly one
    entry, with filename "AppIcon.png", idiom "universal", platform "ios"
    and size "1024x1024", and an [info] record with author "xcode" and
    version 1. *)
Theorem metadata_document (w : World) :
  on_success_path w ->
  exists doc parsed entry info,
    writes_to contents_path (events w) = [TextDoc doc] /\
    doc = Json.dumps contents 2 /\
    Json.loads doc = Some parsed /\
    Json.loads scenario_document = Some parsed /\
    parsed = Json.JObject [("images", Json.JArray [entry]); ("info", info)] /\
    Json.field "images" parsed = Some (Json.JArray [entry]) /\
    Json.field "info" parsed = Some info /\
    entry = Json.JObject [ ("filename", Json.JString "AppIcon.png");
                           ("idiom", Json.JString "universal");
                           ("platform", Json.JString "ios");
                           ("size", Json.JString "1024x1024") ] /\
    info = Json.JObject [ ("author", Json.JString "xcode");
                          ("version", Json.JInt 1) ].
Proof.
  intros Hs. do 4 eexists.
  split; [apply success_writes_document, Hs|].
  split; [reflexivity|].
  split; [vm_compute; reflexivity|].
  split; [vm_compute; reflexivity|].
  repeat split; reflexivity.
Qed.

Lemma metadata_document_witness :
  on_success_path (working_world (40, 100, 380, 470)) /\
  exists doc,
    writes_to contents_path (events (working_world (40, 100, 380, 470)))
    = [TextDoc doc] /\
    Json.loads doc = Json.loads scenario_document.
Proof.
  split; [exact working_world_succeeds|].
  destruct (metadata_document _ working_world_succeeds)
    as (doc & parsed & entry & info & Hw & _ & Hl & Hs & _).
  exists doc. split; [exact Hw|]. rewrite Hl, Hs. reflexivity.
Defined.

(** C8: any two runs on the success path write the same metadata text, byte
    for byte: it is the serialization of the constant [contents], whatever
    the world. *)
Theorem metadata_deterministic (w1 w2 : World) :
  on_success_path w1 ->
  on_success_path w2 ->
  exists doc,
    writes_to contents_path (events w1) = [TextDoc doc] /\
    writes_to contents_path (events w2) = [TextDoc doc] /\
    doc = Json.dumps contents 2.
Proof.
  intros H1 H2. exists (Json.dumps contents 2).
  split; [apply success_writes_document, H1|].
  split; [apply success_writes_document, H2 | reflexivity].
Qed.

Lemma metadata_deterministic_witness :
  on_success_path (working_world (40, 100, 380, 470)) /\
  on_success_path world_without_helvetica /\
  writes_to contents_path (events (working_world (40, 100, 380, 470))) =
  writes_to contents_path (events world_without_helvetica).
Proof.
  split; [exact working_world_succeeds|].
  split; [exact world_without_helvetica_succeeds|].
  destruct (metadata_deterministic _ _ working_world_succeeds
              world_without_helvetica_succeeds) as (doc & H1 & H2 & _).
  rewrite H1, H2. reflexivity.
Defined.

(** * Further properties of the script *)

(** ** Exceptions and what a run leaves behind *)


(** X1 (lines 4, 88-92): when the imaging library cannot be imported, the
    import of line 4 ends the run on [ModuleNotFoundError]; nothing is
    printed and no file is written. *)
Theorem absent_library_ends_run (w : World) :
  pil_importable w = false ->
  run w = (Raise ModuleNotFoundError, initial_state) /\
  events w = [] /\
  ~ on_fallback_path w /\ ~ on_success_path w.
Proof.
  intros Hp. destruct (run_without_pil w Hp) as [Hr He].
  split; [exact Hr|]. split; [exact He|].
  split; intros [H _]; congruence.
Qed.

Lemma absent_library_ends_run_witness :
  pil_importable world_without_pil = false /\
  events world_without_pil = [].
Proof.
  assert (H : pil_importable world_without_pil = false) by reflexivity.
  split; [exact H|].
  exact (proj1 (proj2 (absent_library_ends_run world_without_pil H))).
Defined.



(** X3 (lines 12-64, 89-92): an exception other than an [ImportError]
    raised while the canvas is drawn leaves the run as it is: it is not
    caught, and nothing has been printed or written. *)
Theorem drawing_failure_leaves_no_output (w : World) (e : exn) (st : state) :
  pil_importable w = true ->
  render w initial_state = (Raise e, st) ->
  isinstance_ImportError e = false ->
  run w = (Raise e, st) /\ events w = [].
Proof.
  intros Hp Hr Hi.
  assert (C : create_app_icon w initial_state = (Raise e, st)).
  { rewrite create_app_icon_split. unfold bind. rewrite Hr. reflexivity. }
  destruct (run_cases w) as [[Hp' _] | [_ Hrun]]; [congruence|].
  rewrite C, Hi in Hrun. split; [exact Hrun|].
  unfold events. rewrite Hrun. simpl.
  exact (silent_render w _ _ _ Hr).
Qed.

Lemma drawing_failure_leaves_no_output_witness :
  pil_importable world_draw_fails = true /\
  render world_draw_fails initial_state = (Raise ValueError, initial_state) /\
  events world_draw_fails = [].
Proof.
  assert (Hp : pil_importable world_draw_fails = true) by reflexivity.
  assert (Hr : render world_draw_fails initial_state
               = (Raise ValueError, initial_state))
    by (vm_compute; reflexivity).
  split; [exact Hp|]. split; [exact Hr|].
  exact (proj2 (drawing_failure_leaves_no_output world_draw_fails ValueError
                  initial_state Hp Hr eq_refl)).
Defined.

(** X6 (lines 7-86, 36-42): where no call fails the run takes the success
    path and ends normally with its four events; the system font may fail to
    load, even with an [ImportError], as long as the default font loads: the
    bare [except] keeps that error from reaching the fallback branch. *)
Theorem quiet_run_completes (w : World) :
  quiet w ->
  fst (run w) = Ok tt /\
  ~ on_fallback_path w /\
  exists cv, rendered w cv /\ events w = published cv.
Proof.
  intros Hq. apply quiet_world_succeeds in Hq.
  destruct (run_events w)
    as [(n & _ & Hf & _) | (n & cv & _ & Hnf & He & Hcv & Hs & Hn)].
  - exfalso. destruct Hq as (_ & st' & Hok). destruct Hf as (_ & e & st'' & Hr & _).
    rewrite Hok in Hr. discriminate.
  - apply Hs in Hq. subst n.
    split; [now apply Hn|]. split; [exact Hnf|].
    exists cv. split; [apply Hcv; discriminate | exact He].
Qed.

Lemma quiet_run_completes_witness :
  quiet world_truetype_import_error /\
  fst (run world_truetype_import_error) = Ok tt /\
  ~ on_fallback_path world_truetype_import_error.
Proof.
  assert (Hq : quiet world_truetype_import_error).
  { repeat split; try reflexivity.
    - right. reflexivity.
    - intros f. exists (0, 0, 6, 11). reflexivity. }
  split; [exact Hq|].
  destruct (quiet_run_completes world_truetype_import_error Hq) as (Hok & Hnf & _).
  split; [exact Hok | exact Hnf].
Defined.

(** ** The placement of the glyph (lines 46-52) *)

(** X13: a glyph no wider than the canvas and at most 854 pixels high is
    placed with its box inside the canvas: the upward shift of a tenth of
    the height never pushes it over the top edge. *)
Theorem glyph_box_inside_canvas (b0 b1 b2 b3 : Z) :
  0 <= b2 - b0 <= size ->
  0 <= b3 - b1 <= 854 ->
  let '(x, y) := text_position (b0, b1, b2, b3) in
  0 <= x /\ x + (b2 - b0) <= size /\
  0 <= y /\ y + (b3 - b1) <= size.
Proof.
  unfold text_position, size. intros Hw Hh.
  pose proof (Z.div_mod (1024 - (b2 - b0)) 2 ltac:(lia)).
  pose proof (Z.mod_pos_bound (1024 - (b2 - b0)) 2 ltac:(lia)).
  pose proof (Z.div_mod (1024 - (b3 - b1)) 2 ltac:(lia)).
  pose proof (Z.mod_pos_bound (1024 - (b3 - b1)) 2 ltac:(lia)).
  pose proof (Z.div_mod (b3 - b1) 10 ltac:(lia)).
  pose proof (Z.mod_pos_bound (b3 - b1) 10 ltac:(lia)).
  lia.
Qed.

Lemma glyph_box_inside_canvas_witness :
  0 <= 380 - 40 <= size /\ 0 <= 470 - 100 <= 854 /\
  text_position (40, 100, 380, 470) = (342, 290) /\
  0 <= 342 /\ 342 + (380 - 40) <= size /\ 0 <= 290 /\ 290 + (470 - 100) <= size.
Proof.
  assert (Hw : 0 <= 380 - 40 <= size) by (unfold size; lia).
  assert (Hh : 0 <= 470 - 100 <= 854) by lia.
  split; [exact Hw|]. split; [exact Hh|]. split; [reflexivity|].
  exact (glyph_box_inside_canvas 40 100 380 470 Hw Hh).
Defined.

(** X14: the edges of the placement: [x] is negative exactly when the glyph
    is wider than the canvas, and [y] is negative exactly when it is higher
    than 854 pixels, well before it is as high as the canvas. *)
Theorem text_position_negative_edges (b0 b1 b2 b3 : Z) :
  let '(x, y) := text_position (b0, b1, b2, b3) in
  (x < 0 <-> size < b2 - b0) /\ (y < 0 <-> 854 < b3 - b1).
Proof.
  unfold text_position, size.
  pose proof (Z.div_mod (1024 - (b2 - b0)) 2 ltac:(lia)).
  pose proof (Z.mod_pos_bound (1024 - (b2 - b0)) 2 ltac:(lia)).
  pose proof (Z.div_mod (1024 - (b3 - b1)) 2 ltac:(lia)).
  pose proof (Z.mod_pos_bound (1024 - (b3 - b1)) 2 ltac:(lia)).
  pose proof (Z.div_mod (b3 - b1) 10 ltac:(lia)).
  pose proof (Z.mod_pos_bound (b3 - b1) 10 ltac:(lia)).
  lia.
Qed.
